(** * useFormValidation: a shallow embedding of the field-validation engine

    Source: [src/src/hooks/useCopy.ts], function [useFormValidation]
    (its [validateField], [handleChange], [validateAll] and [reset]).

    Modelling choices, all read off the source:
    - A JS object used as a map ([FormConfig], [FormValues], [FormErrors]) is
      a [gmap string _]; a missing key is [None] ([undefined] in JS).
    - Optional config entries ([label?], [required?], [minLength?], ...)
      are [option]s; a JS condition such as [field.minLength && ...] tests
      JS truthiness, written out by [num_truthy], [bool_truthy] and
      [str_truthy] ([0], [false], [""] and [undefined] are falsy).
    - The numeric bounds are integers ([Z]); a template literal
      [`${n}`] prints an integer in decimal, i.e. stdpp's [pretty] on [Z].
    - Values are strings of ASCII characters; every regex of the source
      is a character test over ASCII.
    - The React state is explicit state passing: each operation maps the
      current [FormState] to the next one, and the next operation runs
      against the state produced by the previous one (one operation per
      render). Inside one [handleChange], [validateField] reads the value
      store of the render that created it, i.e. the store before the
      update, exactly as the closure over [values] does. *)

From stdpp Require Import base gmap strings list fin_maps pretty.
From Stdlib Require Import Ascii String ZArith Lia.

Local Open Scope string_scope.

Module FormValidation.

(* ------------------------------------------------------------------ *)
(** ** Data model *)

Inductive FieldType :=
  | email
  | password
  | repeatPassword
  | text
  | number
  | textarea.

Definition FieldType_eqb (a b : FieldType) : bool :=
  match a, b with
  | email, email | password, password | repeatPassword, repeatPassword
  | text, text | number, number | textarea, textarea => true
  | _, _ => false
  end.

Record FieldConfig := {
  type : FieldType;
  label : option string;
  required : option bool;
  minLength : option Z;
  maxLength : option Z;
  minSpecialChars : option Z;
  minUppercase : option Z;
  minNumbers : option Z;
  matchField : option string
}.

Abbreviation FormConfig := (gmap string FieldConfig).
Abbreviation FormValues := (gmap string string).
Abbreviation FormErrors := (gmap string (option string)).

(* ------------------------------------------------------------------ *)
(** ** JS truthiness *)

(** [x] used as a condition, for an optional boolean. *)
Definition bool_truthy (o : option bool) : bool :=
  match o with Some true => true | _ => false end.

(** [s] used as a condition, for a string: only [""] is falsy. *)
Definition str_truthy (s : string) : bool :=
  match s with EmptyString => false | _ => true end.

(** [field.n && rest]: the optional number, when it is truthy (not
    [undefined] and not [0]). *)
Definition num_truthy (o : option Z) : option Z :=
  match o with Some n => if Z.eqb n 0 then None else Some n | None => None end.

(** [a || b] on an optional string. *)
Definition str_or (o : option string) (d : string) : string :=
  match o with Some s => if str_truthy s then s else d | None => d end.

(** String length as the comparisons use it. *)
Definition len (s : string) : Z := Z.of_nat (String.length s).

(* ------------------------------------------------------------------ *)
(** ** Character classes *)

Definition in_range (lo hi : nat) (c : ascii) : bool :=
  Nat.leb lo (nat_of_ascii c) && Nat.leb (nat_of_ascii c) hi.

Definition is_upper (c : ascii) : bool := in_range 65 90 c.   (* [A-Z] *)
Definition is_lower (c : ascii) : bool := in_range 97 122 c.  (* [a-z] *)
Definition is_digit (c : ascii) : bool := in_range 48 57 c.   (* [0-9], \d *)
Definition is_alpha (c : ascii) : bool := is_upper c || is_lower c.
Definition is_alnum (c : ascii) : bool := is_alpha c || is_digit c.

Definition is_char (x : ascii) (c : ascii) : bool := Ascii.eqb c x.

(** [[a-zA-Z0-9._%+-]] *)
Definition email_local_char (c : ascii) : bool :=
  is_alnum c || is_char "." c || is_char "_" c || is_char "%" c
  || is_char "+" c || is_char "-" c.

(** [[a-zA-Z0-9.-]] *)
Definition email_domain_char (c : ascii) : bool :=
  is_alnum c || is_char "." c || is_char "-" c.

(** [[a-zA-Z0-9@._\-+]] *)
Definition email_allowed_char (c : ascii) : bool :=
  is_alnum c || is_char "@" c || is_char "." c || is_char "_" c
  || is_char "-" c || is_char "+" c.

Fixpoint str_forallb (p : ascii -> bool) (s : string) : bool :=
  match s with EmptyString => true | String c r => p c && str_forallb p r end.

Fixpoint str_existsb (p : ascii -> bool) (s : string) : bool :=
  match s with EmptyString => false | String c r => p c || str_existsb p r end.

(** [(s.match(/[...]/g)?.length || 0)]: the number of matches of a
    one-character class. *)
Fixpoint str_count (p : ascii -> bool) (s : string) : Z :=
  match s with
  | EmptyString => 0
  | String c r => (if p c then 1 else 0) + str_count p r
  end.

(* ------------------------------------------------------------------ *)
(** ** The regexes *)

(** [X+], anchored on both sides: a non-empty run of class [p]. *)
Definition plus_of (p : ascii -> bool) (s : string) : bool :=
  str_truthy s && str_forallb p s.

(** [X{2,}], anchored on both sides. *)
Definition at_least_two_of (p : ascii -> bool) (s : string) : bool :=
  Nat.leb 2 (String.length s) && str_forallb p s.

(** Backtracking over every split [s = pre ++ post]: [f pre post] is
    tried for each of them. *)
Fixpoint exists_split (f : string -> string -> bool) (pre s : string) : bool :=
  f pre s ||
  match s with
  | EmptyString => false
  | String c r => exists_split f (pre ++ String c EmptyString) r
  end.

(** [[a-zA-Z0-9.-]+\.[a-zA-Z]{2,}$] *)
Definition email_domain_re (s : string) : bool :=
  exists_split (fun d t =>
    match t with
    | String c t' => plus_of email_domain_char d && is_char "." c
                     && at_least_two_of is_alpha t'
    | EmptyString => false
    end) EmptyString s.

(** [emailRegex = /^[a-zA-Z0-9._%+-]+@[a-zA-Z0-9.-]+\.[a-zA-Z]{2,}$/] *)
Definition emailRegex_test (s : string) : bool :=
  exists_split (fun l r =>
    match r with
    | String c r' => plus_of email_local_char l && is_char "@" c
                     && email_domain_re r'
    | EmptyString => false
    end) EmptyString s.

(** [/[^a-zA-Z0-9@._\-+]/.test(value)] *)
Definition email_invalid_chars_test (s : string) : bool :=
  str_existsb (fun c => negb (email_allowed_char c)) s.

(** [specialCharRegex = /[^a-zA-Z0-9]/g], [uppercaseRegex = /[A-Z]/g],
    [numberRegex = /[0-9]/g], counted by [match]. *)
Definition special_count (s : string) : Z := str_count (fun c => negb (is_alnum c)) s.
Definition uppercase_count (s : string) : Z := str_count is_upper s.
Definition number_count (s : string) : Z := str_count is_digit s.

(** [/^\d+$/.test(value)] *)
Definition only_digits_test (s : string) : bool := plus_of is_digit s.

(** [/[^\d]/.test(value)] *)
Definition non_digit_test (s : string) : bool :=
  str_existsb (fun c => negb (is_digit c)) s.

(* ------------------------------------------------------------------ *)
(** ** validateField *)

(** [Z] printed by a template literal, in plain decimal. This is what JS
    prints for integers below [10^21] in absolute value; from [10^21] on JS
    uses exponent form ("1e+21"), which this definition does not model. *)
Definition show (n : Z) : string := pretty n.

(** An early [return] inside a block: the first block that returns wins,
    and [None] falls through to the next one. *)
Definition first_fail (a b : option string) : option string :=
  match a with Some e => Some e | None => b end.
Local Infix "<||>" := first_fail (at level 51, right associativity).

(** [field.n && value.length < field.n] *)
Definition too_short (o : option Z) (value : string) : bool :=
  match num_truthy o with Some n => Z.ltb (len value) n | None => false end.

(** [field.n && value.length > field.n] *)
Definition too_long (o : option Z) (value : string) : bool :=
  match num_truthy o with Some n => Z.gtb (len value) n | None => false end.

(** [field.n && count < field.n] *)
Definition count_below (o : option Z) (count : Z) : bool :=
  match num_truthy o with Some n => Z.ltb count n | None => false end.

(** [`${field.n}`]; only evaluated when [field.n] is truthy. *)
Definition show_opt (o : option Z) : string :=
  match o with Some n => show n | None => "undefined" end.

Definition is_type (t : FieldType) (field : FieldConfig) : bool :=
  FieldType_eqb (type field) t.

(** [if (field.type === "email" && value) { ... }] *)
Definition email_block (field : FieldConfig) (value : string) : option string :=
  if is_type email field && str_truthy value then
    if negb (emailRegex_test value) then Some "Invalid email format."
    else if email_invalid_chars_test value then
      Some "Email contains invalid characters."
    else None
  else None.

(** [if (field.type === "password" && value) { ... }] *)
Definition password_block (field : FieldConfig) (value : string) : option string :=
  if is_type password field && str_truthy value then
    if too_short (minLength field) value then
      Some ("Password must be at least " ++ show_opt (minLength field)
            ++ " characters.")
    else if count_below (minSpecialChars field) (special_count value) then
      Some ("Password must contain at least " ++ show_opt (minSpecialChars field)
            ++ " special character(s).")
    else if count_below (minUppercase field) (uppercase_count value) then
      Some ("Password must contain at least " ++ show_opt (minUppercase field)
            ++ " uppercase letter(s).")
    else if count_below (minNumbers field) (number_count value) then
      Some ("Password must contain at least " ++ show_opt (minNumbers field)
            ++ " number(s).")
    else None
  else None.

(** [field.matchField || "password"] *)
Definition match_target (field : FieldConfig) : string :=
  str_or (matchField field) "password".

(** [if (field.type === "repeatPassword" && value) { ... }]: [values[k]]
    is [undefined] ([None]) for a key the store lacks, and a string is
    never [===] to [undefined]. *)
Definition repeat_block (values : FormValues) (field : FieldConfig)
    (value : string) : option string :=
  if is_type repeatPassword field && str_truthy value then
    let matchValue := values !! match_target field in
    if decide (Some value = matchValue) then None
    else Some "Passwords do not match."
  else None.

(** [if (field.type === "text" && value) { ... }] *)
Definition text_block (field : FieldConfig) (value : string) : option string :=
  if is_type text field && str_truthy value then
    if only_digits_test value then Some "Text cannot be only numbers."
    else if too_short (minLength field) value then
      Some ("Text must be at least " ++ show_opt (minLength field) ++ " characters.")
    else if too_long (maxLength field) value then
      Some ("Text must be at most " ++ show_opt (maxLength field) ++ " characters.")
    else None
  else None.

(** [if (field.type === "textarea" && value) { ... }] *)
Definition textarea_block (field : FieldConfig) (value : string) : option string :=
  if is_type textarea field && str_truthy value then
    if too_short (minLength field) value then
      Some ("Textarea must be at least " ++ show_opt (minLength field) ++ " characters.")
    else if too_long (maxLength field) value then
      Some ("Textarea must be at most " ++ show_opt (maxLength field) ++ " characters.")
    else None
  else None.

(** [if (field.type === "number" && value) { ... }] *)
Definition number_block (field : FieldConfig) (value : string) : option string :=
  if is_type number field && str_truthy value then
    if non_digit_test value then Some "Only numbers are allowed."
    else if too_short (minLength field) value then
      Some ("Number must be at least " ++ show_opt (minLength field) ++ " digits.")
    else if too_long (maxLength field) value then
      Some ("Number must be at most " ++ show_opt (maxLength field) ++ " digits.")
    else None
  else None.

(** [validateField(name, value)]: [None] is [null]. It reads the config
    and the value store of the current render. *)
Definition validateField (config : FormConfig) (values : FormValues)
    (name value : string) : option string :=
  match config !! name with
  | None => None
  | Some field =>
      if bool_truthy (required field) && negb (str_truthy value) then
        Some (str_or (label field) name ++ " is required.")
      else
        email_block field value <||> password_block field value
        <||> repeat_block values field value <||> text_block field value
        <||> textarea_block field value <||> number_block field value
  end.

(* ------------------------------------------------------------------ *)
(** ** The hook's state and operations *)

Record FormState := {
  values : FormValues;
  errors : FormErrors
}.

(** [initialValues]: every config key mapped to [""]. *)
Definition initialValues (config : FormConfig) : FormValues :=
  (fun _ => "") <$> config.

(** [useState(initialValues)], [useState({})] *)
Definition init (config : FormConfig) : FormState :=
  {| values := initialValues config; errors := ∅ |}.

(** [handleChange] on an event with target [{ name, value }]: both
    updaters spread the previous store; the error is computed by
    [validateField] over the value store of this render. *)
Definition handleChange (config : FormConfig) (st : FormState)
    (name value : string) : FormState :=
  {| values := <[name := value]> (values st);
     errors := <[name := validateField config (values st) name value]> (errors st) |}.

(** [if (error) valid = false]: an error string is truthy when non-empty. *)
Definition err_truthy (e : option string) : bool :=
  match e with Some s => str_truthy s | None => false end.

(** The [forEach] loop of [validateAll] over [Object.keys(config)].
    [values[name]] is [undefined] for a missing key, which [validateField]
    treats exactly as [""] (every use of [value] is a truthiness test
    guarding the rest), so a missing key is passed as [""]. *)
Fixpoint validateAll_loop (config : FormConfig) (vals : FormValues)
    (names : list string) (newErrors : FormErrors) (valid : bool)
    : FormErrors * bool :=
  match names with
  | [] => (newErrors, valid)
  | name :: rest =>
      let error := validateField config vals name (default "" (vals !! name)) in
      validateAll_loop config vals rest (<[name := error]> newErrors)
        (if err_truthy error then false else valid)
  end.

(** [Object.keys(config)] *)
Definition config_keys (config : FormConfig) : list string :=
  (map_to_list config).*1.

(** [validateAll()]: the new state and the returned boolean. *)
Definition validateAll (config : FormConfig) (st : FormState) : FormState * bool :=
  let '(newErrors, valid) := validateAll_loop config (values st) (config_keys config) ∅ true in
  ({| values := values st; errors := newErrors |}, valid).

(** [reset()]: back to [initialValues], errors emptied. *)
Definition reset (config : FormConfig) (st : FormState) : FormState :=
  {| values := initialValues config; errors := ∅ |}.

(** The operations a caller drives: [handleChange] (the spec's
    [update]), [validateAll] and [reset]. *)
Inductive Op :=
  | Update (name value : string)
  | ValidateAll
  | Reset.

Definition step (config : FormConfig) (st : FormState) (op : Op) : FormState :=
  match op with
  | Update n v => handleChange config st n v
  | ValidateAll => fst (validateAll config st)
  | Reset => reset config st
  end.

Definition run (config : FormConfig) (st : FormState) (ops : list Op) : FormState :=
  foldl (step config) st ops.

(** The states the hook reaches from its first render. *)
Definition reachable (config : FormConfig) (st : FormState) : Prop :=
  exists ops, st = run config (init config) ops.

(** The operations whose [handleChange] names a key of the config. *)
Definition update_configured (config : FormConfig) (op : Op) : Prop :=
  match op with Update n _ => is_Some (config !! n) | _ => True end.

(* ------------------------------------------------------------------ *)
(** ** Sample configurations (after the README's example form) *)

(** A field of type [t] with no optional entry set. *)
Definition plain_field (t : FieldType) : FieldConfig :=
  {| type := t; label := None; required := None; minLength := None;
     maxLength := None; minSpecialChars := None; minUppercase := None;
     minNumbers := None; matchField := None |}.

(** [{ type: "password", minLength: 8, minSpecialChars: 1,
       minUppercase: 1, minNumbers: 2 }] *)
Definition demo_password : FieldConfig :=
  {| type := password; label := Some "Password"; required := Some true;
     minLength := Some 8%Z; maxLength := None; minSpecialChars := Some 1%Z;
     minUppercase := Some 1%Z; minNumbers := Some 2%Z; matchField := None |}.

(** [{ type: "repeatPassword", matchField: "confirmTarget" }], a key the
    config does not declare. *)
Definition dangling_repeat : FieldConfig :=
  {| type := repeatPassword; label := None; required := Some true;
     minLength := None; maxLength := None; minSpecialChars := None;
     minUppercase := None; minNumbers := None;
     matchField := Some "confirmTarget" |}.

(** [{ type: "textarea", label: "", required: true }] *)
Definition blank_label_bio : FieldConfig :=
  {| type := textarea; label := Some ""; required := Some true;
     minLength := Some 10%Z; maxLength := Some 200%Z; minSpecialChars := None;
     minUppercase := None; minNumbers := None; matchField := None |}.

Definition demo_config : FormConfig :=
  <["password" := demo_password]> (<["email" := plain_field email]>
  (<["repeat" := dangling_repeat]> (<["bio" := blank_label_bio]> ∅))).

End FormValidation.

(* ================================================================== *)
(** * useCopy: the [copied] flag and its reset timers

    Source: [src/src/hooks/useCopy.ts], [useCopy(resetTimeout = 2000)].

    Time is discrete (one [Tick] per millisecond). A [setTimeout(f, d)]
    registered at time [t] is a pending deadline [t + d]; it runs [f] on
    the tick that reaches its deadline ([d] is a delay in milliseconds,
    so a [nat]; see [timeout_delay] for how [setTimeout] converts the
    [resetTimeout] argument). [copy(text)] awaits [navigator.clipboard.writeText]; its
    effect happens when that promise settles, which is the event
    [Settled ok]: [ok = true] when it resolves, [false] when it rejects or
    throws (the [catch] branch, e.g. no clipboard API). No timer is ever
    cleared. *)

Module UseCopy.

Record CopyState := {
  copied : bool;
  now : nat;
  timers : list nat   (* deadlines of the pending [setCopied(false)] *)
}.

(** [useState(false)] at time 0, no timer pending. *)
Definition copy_init : CopyState := {| copied := false; now := 0; timers := [] |}.

(** The delay [setTimeout] actually uses for [resetTimeout] (a
    non-negative integer here): the HTML timer steps convert it to a
    WebIDL [long], i.e. modulo [2^32] with values from [2^31] on read as
    negative, and a negative delay is treated as [0]. So only a
    [resetTimeout] below [2^31] is honoured as given. (Node instead uses
    [1] for every delay above [2^31 - 1]; both agree below [2^31].) *)
Definition timeout_delay (resetTimeout : nat) : nat :=
  let w := (Z.of_nat resetTimeout mod 2 ^ 32)%Z in
  if (w <? 2 ^ 31)%Z then Z.to_nat w else 0.

(** The body of [copy] after [await navigator.clipboard.writeText(text)]. *)
Definition copy_settled (resetTimeout : nat) (st : CopyState) (ok : bool) : CopyState :=
  if ok then
    (* setCopied(true); setTimeout(() => setCopied(false), resetTimeout) *)
    {| copied := true; now := now st;
       timers := (now st + timeout_delay resetTimeout) :: timers st |}
  else
    (* catch (e) { setCopied(false) } *)
    {| copied := false; now := now st; timers := timers st |}.

(** One millisecond passes: every timer whose deadline is reached runs
    [setCopied(false)] and is removed. *)
Definition tick (st : CopyState) : CopyState :=
  let t := S (now st) in
  let fired := List.filter (fun d => Nat.leb d t) (timers st) in
  {| copied := match fired with [] => copied st | _ :: _ => false end;
     now := t;
     timers := List.filter (fun d => negb (Nat.leb d t)) (timers st) |}.

Fixpoint ticks (n : nat) (st : CopyState) : CopyState :=
  match n with 0 => st | S m => ticks m (tick st) end.

Inductive CopyEvent :=
  | Settled (ok : bool)
  | Tick.

Definition copy_step (resetTimeout : nat) (st : CopyState) (ev : CopyEvent) : CopyState :=
  match ev with
  | Settled ok => copy_settled resetTimeout st ok
  | Tick => tick st
  end.

Definition copy_run (resetTimeout : nat) (st : CopyState) (evs : list CopyEvent) : CopyState :=
  foldl (copy_step resetTimeout) st evs.

End UseCopy.

(* ================================================================== *)
(** * Properties *)

Module FormValidationFacts.
Import FormValidation.

(* ------------------------------------------------------------------ *)
(** ** Helper lemmas on [validateField] *)

Lemma blocks_empty (vals : FormValues) (field : FieldConfig) :
  email_block field "" = None /\ password_block field "" = None /\
  repeat_block vals field "" = None /\ text_block field "" = None /\
  textarea_block field "" = None /\ number_block field "" = None.
Proof.
  unfold email_block, password_block, repeat_block, text_block,
    textarea_block, number_block; simpl.
  rewrite !andb_false_r; repeat split.
Qed.

Lemma validateField_unfold (config : FormConfig) (vals : FormValues)
    (name value : string) (field : FieldConfig) :
  config !! name = Some field ->
  validateField config vals name value =
  if bool_truthy (required field) && negb (str_truthy value) then
    Some (str_or (label field) name ++ " is required.")
  else
    first_fail (email_block field value) (first_fail (password_block field value)
    (first_fail (repeat_block vals field value) (first_fail (text_block field value)
    (first_fail (textarea_block field value) (number_block field value))))).
Proof. intros Hf. unfold validateField. rewrite Hf. reflexivity. Qed.

(** Empty value, [required] not truthy: no error. *)
Lemma validateField_empty_not_required (config : FormConfig) (vals : FormValues)
    (name : string) (field : FieldConfig) :
  config !! name = Some field -> bool_truthy (required field) = false ->
  validateField config vals name "" = None.
Proof.
  intros Hf Hr. rewrite (validateField_unfold _ _ _ _ _ Hf), Hr; simpl.
  destruct (blocks_empty vals field) as (-> & -> & -> & -> & -> & ->).
  reflexivity.
Qed.

(** Empty value, [required] truthy: the required error. *)
Lemma validateField_empty_required (config : FormConfig) (vals : FormValues)
    (name : string) (field : FieldConfig) :
  config !! name = Some field -> bool_truthy (required field) = true ->
  validateField config vals name "" = Some (str_or (label field) name ++ " is required.").
Proof.
  intros Hf Hr. rewrite (validateField_unfold _ _ _ _ _ Hf), Hr. reflexivity.
Qed.

(** A non-empty value skips the required check. *)
Lemma validateField_nonempty (config : FormConfig) (vals : FormValues)
    (name value : string) (field : FieldConfig) :
  config !! name = Some field -> value <> "" ->
  validateField config vals name value =
    first_fail (email_block field value) (first_fail (password_block field value)
    (first_fail (repeat_block vals field value) (first_fail (text_block field value)
    (first_fail (textarea_block field value) (number_block field value))))).
Proof.
  intros Hf Hv. rewrite (validateField_unfold _ _ _ _ _ Hf).
  destruct value as [|c r]; [congruence|]. simpl. rewrite andb_false_r. reflexivity.
Qed.

(** Only the block of the field's own type can fire. *)
Lemma blocks_other_type (vals : FormValues) (field : FieldConfig) (value : string) :
  (type field <> email -> email_block field value = None) /\
  (type field <> password -> password_block field value = None) /\
  (type field <> repeatPassword -> repeat_block vals field value = None) /\
  (type field <> text -> text_block field value = None) /\
  (type field <> textarea -> textarea_block field value = None) /\
  (type field <> number -> number_block field value = None).
Proof.
  unfold email_block, password_block, repeat_block, text_block,
    textarea_block, number_block, is_type.
  destruct (type field); repeat split; intros H; try congruence; reflexivity.
Qed.

Lemma list_ascii_of_string_append (a b : string) :
  list_ascii_of_string (a ++ b) = (list_ascii_of_string a ++ list_ascii_of_string b)%list.
Proof. induction a as [|c a IH]; simpl; [reflexivity | rewrite IH; reflexivity]. Qed.

Ltac other_blocks vals field value :=
  let H := fresh in
  pose proof (blocks_other_type vals field value) as H;
  repeat match type of H with
  | (?A -> ?B) /\ ?R =>
      let H1 := fresh in let H2 := fresh in destruct H as [H1 H2];
      try (rewrite H1 by congruence); clear H1; rename H2 into H
  | ?A -> ?B => try (rewrite H by congruence); clear H
  end.

(* ------------------------------------------------------------------ *)
(** ** Claims *)

(** C1: for a field whose [required] is absent or false, [validateField]
    on the empty value returns no error, whatever the other constraints
    and the value store are. *)
Theorem validateField_optional_empty_ok (config : FormConfig) (vals : FormValues)
    (name : string) (field : FieldConfig) :
  config !! name = Some field ->
  required field = None \/ required field = Some false ->
  validateField config vals name "" = None.
Proof.
  intros Hf Hr. apply (validateField_empty_not_required _ _ _ field Hf).
  destruct Hr as [-> | ->]; reflexivity.
Qed.

Lemma validateField_optional_empty_ok_witness :
  validateField demo_config ∅ "email" "" = None.
Proof.
  apply (validateField_optional_empty_ok demo_config ∅ "email" (plain_field email)).
  - reflexivity.
  - left. reflexivity.
Defined.

(** C2 (as stated, refuted): a label configured as [""] is not what the
    message shows; [field.label || name] falls back to the key. *)
Lemma required_label_empty_counterexample :
  label blank_label_bio = Some "" /\
  validateField demo_config ∅ "bio" "" <> Some ("" ++ " is required.") /\
  validateField demo_config ∅ "bio" "" = Some "bio is required.".
Proof. vm_compute. split; [reflexivity | split; [discriminate | reflexivity]]. Qed.

(** C2 (amended): for a required field, [validateField] on the empty value
    returns ["<label> is required."], where <label> is the configured
    label when it is non-empty and the field's key otherwise (absent or
    empty label); no type-specific rule is reached. *)
Theorem validateField_required_empty_error (config : FormConfig) (vals : FormValues)
    (name : string) (field : FieldConfig) :
  config !! name = Some field -> required field = Some true ->
  validateField config vals name "" =
    Some ((match label field with
           | Some l => if String.eqb l "" then name else l
           | None => name
           end) ++ " is required.").
Proof.
  intros Hf Hr. rewrite (validateField_empty_required _ _ _ field Hf) by (rewrite Hr; reflexivity).
  unfold str_or. destruct (label field) as [[|c l]|]; reflexivity.
Qed.

Lemma validateField_required_empty_error_witness :
  demo_config !! "password" = Some demo_password /\ required demo_password = Some true /\
  validateField demo_config ∅ "password" "" = Some ("Password" ++ " is required.").
Proof.
  split; [reflexivity | split; [reflexivity |]].
  exact (validateField_required_empty_error demo_config ∅ "password" demo_password
           eq_refl eq_refl).
Defined.

(** A password field: only [password_block] can fire on a non-empty value. *)
Lemma validateField_password (config : FormConfig) (vals : FormValues)
    (name value : string) (field : FieldConfig) :
  config !! name = Some field -> type field = password -> value <> "" ->
  validateField config vals name value = password_block field value.
Proof.
  intros Hf Ht Hv. rewrite (validateField_nonempty _ _ _ _ _ Hf Hv).
  other_blocks vals field value. simpl. destruct (password_block field value); reflexivity.
Qed.

(** An email field: only [email_block] can fire on a non-empty value. *)
Lemma validateField_email (config : FormConfig) (vals : FormValues)
    (name value : string) (field : FieldConfig) :
  config !! name = Some field -> type field = email -> value <> "" ->
  validateField config vals name value = email_block field value.
Proof.
  intros Hf Ht Hv. rewrite (validateField_nonempty _ _ _ _ _ Hf Hv).
  other_blocks vals field value. simpl. destruct (email_block field value); reflexivity.
Qed.

(** C3: a password field with [{minLength:8, minSpecialChars:1,
    minUppercase:1, minNumbers:2}] gives the special-character error on
    ["abcdefgh"], the numbers error on ["Abcdef1!"] and no error on
    ["Abcdef12!"]; the checks run in the order minLength, minSpecialChars,
    minUppercase, minNumbers, and the first failing one wins: for every
    non-empty value the result is the message of the first check in that
    order that fails, or no error when all pass (["abc"] fails all four
    and gets the length error, ["abcdefg!"] fails the uppercase and
    numbers checks and gets the uppercase error). *)
Theorem password_demo_checks (config : FormConfig) (vals : FormValues)
    (name : string) (field : FieldConfig) :
  config !! name = Some field -> type field = password ->
  minLength field = Some 8%Z -> minSpecialChars field = Some 1%Z ->
  minUppercase field = Some 1%Z -> minNumbers field = Some 2%Z ->
  validateField config vals name "abcdefgh" =
    Some "Password must contain at least 1 special character(s)." /\
  validateField config vals name "Abcdef1!" =
    Some "Password must contain at least 2 number(s)." /\
  validateField config vals name "Abcdef12!" = None /\
  validateField config vals name "abc" =
    Some "Password must be at least 8 characters." /\
  validateField config vals name "abcdefg!" =
    Some "Password must contain at least 1 uppercase letter(s)." /\
  (forall value, value <> "" ->
   validateField config vals name value =
     if (len value <? 8)%Z then
       Some "Password must be at least 8 characters."
     else if (special_count value <? 1)%Z then
       Some "Password must contain at least 1 special character(s)."
     else if (uppercase_count value <? 1)%Z then
       Some "Password must contain at least 1 uppercase letter(s)."
     else if (number_count value <? 2)%Z then
       Some "Password must contain at least 2 number(s)."
     else None).
Proof.
  intros Hf Ht H1 H2 H3 H4.
  assert (Hgen : forall value, value <> "" ->
    validateField config vals name value = password_block field value)
    by (intros value Hv; exact (validateField_password config vals name value field Hf Ht Hv)).
  rewrite !Hgen by discriminate.
  unfold password_block, is_type. rewrite Ht, H1, H2, H3, H4.
  split; [vm_compute; reflexivity|].
  do 3 (split; [vm_compute; reflexivity|]).
  split; [vm_compute; reflexivity|].
  intros value Hv. rewrite (Hgen value Hv).
  unfold password_block, is_type. rewrite Ht, H1, H2, H3, H4.
  destruct value as [|c value']; [contradiction|]. reflexivity.
Qed.

Lemma password_demo_checks_witness :
  validateField demo_config ∅ "password" "abcdefgh" =
    Some "Password must contain at least 1 special character(s)." /\
  validateField demo_config ∅ "password" "Abcdef1!" =
    Some "Password must contain at least 2 number(s)." /\
  validateField demo_config ∅ "password" "Abcdef12!" = None /\
  validateField demo_config ∅ "password" "abc" =
    Some "Password must be at least 8 characters." /\
  validateField demo_config ∅ "password" "abcdefg!" =
    Some "Password must contain at least 1 uppercase letter(s)." /\
  (forall value, value <> "" ->
   validateField demo_config ∅ "password" value =
     if (len value <? 8)%Z then
       Some "Password must be at least 8 characters."
     else if (special_count value <? 1)%Z then
       Some "Password must contain at least 1 special character(s)."
     else if (uppercase_count value <? 1)%Z then
       Some "Password must contain at least 1 uppercase letter(s)."
     else if (number_count value <? 2)%Z then
       Some "Password must contain at least 2 number(s)."
     else None).
Proof.
  apply (password_demo_checks demo_config ∅ "password" demo_password);
    reflexivity.
Defined.

(** C4 (as stated, refuted): ["a@b.com!"] does not reach the
    character-set check, it already fails the format regex (the final
    [[a-zA-Z]{2,}$] rejects the ['!']). *)
Lemma email_bang_counterexample :
  validateField demo_config ∅ "email" "a@b.com!" <> Some "Email contains invalid characters." /\
  validateField demo_config ∅ "email" "a@b.com!" = Some "Invalid email format.".
Proof. vm_compute. split; [discriminate | reflexivity]. Qed.

(** C4 (amended): on an email field, ["a@b.com"] is accepted,
    ["not-an-email"] and ["a@b.com!"] get ["Invalid email format."]; the
    format check precedes the character-set check, so any non-empty value
    failing the format gets the format error. *)
Theorem email_examples (config : FormConfig) (vals : FormValues)
    (name : string) (field : FieldConfig) :
  config !! name = Some field -> type field = email ->
  validateField config vals name "a@b.com" = None /\
  validateField config vals name "not-an-email" = Some "Invalid email format." /\
  validateField config vals name "a@b.com!" = Some "Invalid email format." /\
  (forall v, v <> "" -> emailRegex_test v = false ->
     validateField config vals name v = Some "Invalid email format.").
Proof.
  intros Hf Ht.
  rewrite !(validateField_email config vals name _ field Hf Ht) by discriminate.
  unfold email_block, is_type. rewrite Ht. split; [vm_compute; reflexivity|].
  split; [vm_compute; reflexivity|]. split; [vm_compute; reflexivity|].
  intros v Hv Hre. rewrite (validateField_email config vals name _ field Hf Ht Hv).
  unfold email_block, is_type. rewrite Ht, Hre.
  destruct v as [|c r]; [congruence|]. reflexivity.
Qed.

Lemma email_examples_witness :
  validateField demo_config ∅ "email" "a@b.com" = None /\
  validateField demo_config ∅ "email" "not-an-email" = Some "Invalid email format." /\
  validateField demo_config ∅ "email" "a@b.com!" = Some "Invalid email format." /\
  (forall v, v <> "" -> emailRegex_test v = false ->
     validateField demo_config ∅ "email" v = Some "Invalid email format.").
Proof.
  apply (email_examples demo_config ∅ "email" (plain_field email)); reflexivity.
Defined.

(** C10: on an email field ["a%b@c.com"] passes the format regex (['%']
    is allowed in the local part) and gets the character-set error; any
    value that gets the character-set error has passed the format check. *)
Theorem email_charset_error_reachable (config : FormConfig) (vals : FormValues)
    (name : string) (field : FieldConfig) :
  config !! name = Some field -> type field = email ->
  validateField config vals name "a%b@c.com" = Some "Email contains invalid characters." /\
  (forall v, validateField config vals name v = Some "Email contains invalid characters." ->
     emailRegex_test v = true).
Proof.
  intros Hf Ht. split.
  - rewrite (validateField_email config vals name _ field Hf Ht) by discriminate.
    unfold email_block, is_type. rewrite Ht. vm_compute. reflexivity.
  - intros v Hv. destruct v as [|c r].
    + destruct (bool_truthy (required field)) eqn:Hr.
      * rewrite (validateField_empty_required _ _ _ field Hf Hr) in Hv.
        injection Hv as Hv. apply (f_equal (fun x => rev (list_ascii_of_string x))) in Hv.
        rewrite list_ascii_of_string_append, rev_app_distr in Hv. simpl in Hv.
        discriminate.
      * rewrite (validateField_empty_not_required _ _ _ field Hf Hr) in Hv. discriminate.
    + rewrite (validateField_email config vals name _ field Hf Ht) in Hv by discriminate.
      unfold email_block, is_type in Hv. rewrite Ht in Hv. simpl in Hv.
      destruct (emailRegex_test (String c r)); [reflexivity | discriminate].
Qed.

Lemma email_charset_error_reachable_witness :
  validateField demo_config ∅ "email" "a%b@c.com" = Some "Email contains invalid characters." /\
  (forall v, validateField demo_config ∅ "email" v = Some "Email contains invalid characters." ->
     emailRegex_test v = true).
Proof.
  apply (email_charset_error_reachable demo_config ∅ "email" (plain_field email));
    reflexivity.
Defined.

(* ------------------------------------------------------------------ *)
(** ** Helper lemmas on the state operations *)

Lemma validateAll_loop_errors (config : FormConfig) (vals : FormValues)
    (names : list string) (ne : FormErrors) (valid : bool) (k : string) :
  (validateAll_loop config vals names ne valid).1 !! k =
    if decide (k ∈ names) then Some (validateField config vals k (default "" (vals !! k)))
    else ne !! k.
Proof.
  revert ne valid. induction names as [|n rest IH]; intros ne valid;
    cbn [validateAll_loop fst].
  - rewrite decide_False by (apply not_elem_of_nil). reflexivity.
  - rewrite IH. case_decide as Hr.
    + rewrite decide_True by (by apply elem_of_cons; right). reflexivity.
    + destruct (decide (k = n)) as [->|Hne].
      * rewrite decide_True by (by apply elem_of_cons; left).
        by rewrite lookup_insert_eq.
      * rewrite decide_False by (rewrite elem_of_cons; tauto).
        by rewrite lookup_insert_ne by congruence.
Qed.

Lemma validateAll_loop_valid (config : FormConfig) (vals : FormValues)
    (names : list string) (ne : FormErrors) (valid : bool) :
  (validateAll_loop config vals names ne valid).2 =
    valid && forallb (fun n => negb (err_truthy (validateField config vals n
                                                   (default "" (vals !! n))))) names.
Proof.
  revert ne valid. induction names as [|n rest IH]; intros ne valid; simpl.
  - by rewrite andb_true_r.
  - rewrite IH. destruct (err_truthy _); simpl; [by rewrite andb_false_r | reflexivity].
Qed.

Lemma config_keys_elem (config : FormConfig) (k : string) :
  k ∈ config_keys config <-> is_Some (config !! k).
Proof.
  unfold config_keys. rewrite list_elem_of_fmap. split.
  - intros [[k' f] [-> Hin]]. apply elem_of_map_to_list in Hin. simpl. by exists f.
  - intros [f Hf]. exists (k, f). split; [reflexivity|]. by apply elem_of_map_to_list.
Qed.

Lemma forallb_false_exists {A} (f : A -> bool) (l : list A) :
  forallb f l = false -> exists x, In x l /\ f x = false.
Proof.
  induction l as [|x l IH]; simpl; [discriminate|].
  destruct (f x) eqn:Hx; simpl; [|eauto].
  intros Hl. destruct (IH Hl) as (y & Hy & Hfy). eauto.
Qed.

Lemma validateAll_values (config : FormConfig) (st : FormState) :
  values (validateAll config st).1 = values st.
Proof.
  unfold validateAll. destruct (validateAll_loop _ _ _ _ _). reflexivity.
Qed.

Lemma validateAll_result (config : FormConfig) (st : FormState) :
  validateAll config st =
    ({| values := values st;
        errors := (validateAll_loop config (values st) (config_keys config) ∅ true).1 |},
     (validateAll_loop config (values st) (config_keys config) ∅ true).2).
Proof. unfold validateAll. destruct (validateAll_loop _ _ _ _ _). reflexivity. Qed.

Lemma initialValues_default (config : FormConfig) (k : string) :
  default "" (initialValues config !! k) = "".
Proof. unfold initialValues. rewrite lookup_fmap. by destruct (config !! k). Qed.

Lemma required_msg_truthy (s : string) : str_truthy (s ++ " is required.") = true.
Proof. by destruct s. Qed.

Lemma run_cons (config : FormConfig) (st : FormState) (op : Op) (ops : list Op) :
  run config st (op :: ops) = run config (step config st op) ops.
Proof. reflexivity. Qed.

Lemma step_dom (config : FormConfig) (st : FormState) (op : Op) :
  dom (values st) = dom config -> update_configured config op ->
  dom (values (step config st op)) = dom config.
Proof.
  intros Hd Hop. destruct op as [n v| |]; simpl.
  - rewrite dom_insert_L, Hd. apply elem_of_dom in Hop. set_solver.
  - by rewrite validateAll_values.
  - unfold initialValues. apply dom_fmap_L.
Qed.

Lemma run_dom (config : FormConfig) (ops : list Op) (st : FormState) :
  dom (values st) = dom config -> Forall (update_configured config) ops ->
  dom (values (run config st ops)) = dom config.
Proof.
  revert st. induction ops as [|op ops IH]; intros st Hd Hall; [exact Hd|].
  apply Forall_cons in Hall as [Hop Hall]. rewrite run_cons.
  apply IH; [by apply step_dom | exact Hall].
Qed.

(** C5: after [reset()], [validateAll()] returns [false] exactly when some
    field is required, and records the required error for every required
    field; with no required field it returns [true]. *)
Theorem reset_then_validateAll (config : FormConfig) (st : FormState) :
  let '(st', valid) := validateAll config (reset config st) in
  (valid = false <-> exists k f, config !! k = Some f /\ required f = Some true) /\
  (forall k f, config !! k = Some f -> required f = Some true ->
     errors st' !! k = Some (Some (str_or (label f) k ++ " is required."))).
Proof.
  rewrite validateAll_result. simpl. split.
  - rewrite validateAll_loop_valid. simpl. split.
    + intros Hall. destruct (forallb _ _) eqn:Hfa; [discriminate|].
      apply forallb_false_exists in Hfa as (k & Hin & Hk).
      apply list_elem_of_In, config_keys_elem in Hin as [f Hf].
      exists k, f. split; [exact Hf|].
      rewrite initialValues_default in Hk.
      destruct (required f) as [[|]|] eqn:Hr; [reflexivity| |];
        rewrite (validateField_empty_not_required _ _ _ f Hf) in Hk
          by (rewrite Hr; reflexivity); simpl in Hk; congruence.
    + intros (k & f & Hf & Hr). apply not_true_iff_false. intros Hfa.
      rewrite forallb_forall in Hfa.
      assert (Hin : In k (config_keys config)).
      { apply list_elem_of_In, config_keys_elem. by exists f. }
      specialize (Hfa k Hin). rewrite initialValues_default in Hfa.
      rewrite (validateField_empty_required _ _ _ f Hf) in Hfa by (rewrite Hr; reflexivity).
      simpl in Hfa. rewrite required_msg_truthy in Hfa. discriminate.
  - intros k f Hf Hr. rewrite validateAll_loop_errors.
    rewrite decide_True by (apply config_keys_elem; by exists f).
    rewrite initialValues_default.
    by rewrite (validateField_empty_required _ _ _ f Hf) by (rewrite Hr; reflexivity).
Qed.

(** C6: [handleChange] writes [values[n]] and [errors[n]] only; every
    other entry of both stores is kept, whatever field it belongs to. *)
Theorem handleChange_frame (config : FormConfig) (st : FormState) (n v : string) :
  values (handleChange config st n v) !! n = Some v /\
  errors (handleChange config st n v) !! n = Some (validateField config (values st) n v) /\
  (forall m, m <> n ->
     values (handleChange config st n v) !! m = values st !! m /\
     errors (handleChange config st n v) !! m = errors st !! m).
Proof.
  simpl. split; [by rewrite lookup_insert_eq|]. split; [by rewrite lookup_insert_eq|].
  intros m Hm. by rewrite !lookup_insert_ne by congruence.
Qed.

Lemma handleChange_frame_witness :
  values (handleChange demo_config (init demo_config) "password" "X1") !! "password" = Some "X1" /\
  errors (handleChange demo_config (init demo_config) "password" "X1") !! "password" =
    Some (validateField demo_config (values (init demo_config)) "password" "X1") /\
  (forall m, m <> "password" ->
     values (handleChange demo_config (init demo_config) "password" "X1") !! m =
       values (init demo_config) !! m /\
     errors (handleChange demo_config (init demo_config) "password" "X1") !! m =
       errors (init demo_config) !! m).
Proof. exact (handleChange_frame demo_config (init demo_config) "password" "X1"). Defined.

(** A stale repeat-password error: the repeat field is not revalidated when
    its target changes. *)
Example repeat_error_stale :
  let cfg : FormConfig := <["password" := plain_field password]>
                          {[ "repeat" := plain_field repeatPassword ]} in
  let st := run cfg (init cfg) [Update "password" "X1"; Update "repeat" "X1";
                                Update "password" "X2"] in
  errors st !! "repeat" = Some None /\
  validateField cfg (values st) "repeat" "X1" = Some "Passwords do not match.".
Proof. vm_compute. split; reflexivity. Qed.

(** C7 (as stated, refuted): [handleChange] on a name outside the config
    adds that name to the value store. *)
Lemma values_keys_counterexample :
  dom (values (run demo_config (init demo_config) [Update "ghost" "x"])) <> dom demo_config.
Proof.
  intros H.
  assert (Hin : "ghost" ∈ dom (values (run demo_config (init demo_config) [Update "ghost" "x"]))).
  { apply elem_of_dom. vm_compute. by eexists. }
  rewrite H in Hin. apply elem_of_dom in Hin. vm_compute in Hin. by destruct Hin.
Qed.

(** C7 (amended): the value store is every config key mapped to [""] at
    construction and after [reset]; its key set is the config's key set in
    every state reached by [validateAll], [reset] and [handleChange] on
    configured names. *)
Theorem values_keys_invariant (config : FormConfig) :
  values (init config) = (fun _ => "") <$> config /\
  (forall st, values (reset config st) = (fun _ => "") <$> config) /\
  (forall ops, Forall (update_configured config) ops ->
     dom (values (run config (init config) ops)) = dom config).
Proof.
  split; [reflexivity|]. split; [reflexivity|].
  intros ops Hall. apply run_dom; [apply dom_fmap_L | exact Hall].
Qed.

Lemma values_keys_invariant_witness :
  values (init demo_config) = (fun _ => "") <$> demo_config /\
  (forall st, values (reset demo_config st) = (fun _ => "") <$> demo_config) /\
  (forall ops, Forall (update_configured demo_config) ops ->
     dom (values (run demo_config (init demo_config) ops)) = dom demo_config).
Proof. exact (values_keys_invariant demo_config). Defined.

(** C8 (as stated, refuted): after [handleChange] on the dangling target
    name itself, the store holds a value for it and the comparison uses it. *)
Lemma dangling_match_counterexample :
  demo_config !! "confirmTarget" = None /\
  validateField demo_config
    (values (run demo_config (init demo_config) [Update "confirmTarget" "abc"]))
    "repeat" "abc" = None.
Proof. vm_compute. split; reflexivity. Qed.

(** C8 (amended): a repeatPassword field whose comparison target
    ([matchField], or ["password"] when it is absent or empty) is not a
    config key gets ["Passwords do not match."] on every non-empty value,
    in every state reached by [validateAll], [reset] and [handleChange] on
    configured names. *)
Theorem dangling_match_mismatch (config : FormConfig) (ops : list Op)
    (name v : string) (field : FieldConfig) :
  Forall (update_configured config) ops ->
  config !! name = Some field -> type field = repeatPassword ->
  config !! match_target field = None -> v <> "" ->
  validateField config (values (run config (init config) ops)) name v =
    Some "Passwords do not match.".
Proof.
  intros Hall Hf Ht Htg Hv.
  pose proof (run_dom config ops (init config) (dom_fmap_L _ config) Hall) as Hd.
  assert (Hnone : values (run config (init config) ops) !! match_target field = None).
  { apply not_elem_of_dom. rewrite Hd. by apply not_elem_of_dom. }
  rewrite (validateField_nonempty _ _ _ _ _ Hf Hv).
  set (vals := values (run config (init config) ops)) in *.
  other_blocks vals field v. simpl.
  unfold repeat_block, is_type. rewrite Ht, Hnone.
  destruct v as [|c r]; [congruence|]. cbn [str_truthy andb FieldType_eqb].
  destruct (decide _) as [Heq|]; [discriminate Heq | reflexivity].
Qed.

Lemma dangling_match_mismatch_witness :
  validateField demo_config
    (values (run demo_config (init demo_config) [Update "password" "Abcdef12!"; Reset]))
    "repeat" "Abcdef12!" = Some "Passwords do not match.".
Proof.
  apply (dangling_match_mismatch demo_config [Update "password" "Abcdef12!"; Reset]
           "repeat" "Abcdef12!" dangling_repeat).
  - repeat constructor. simpl. by eexists.
  - reflexivity.
  - reflexivity.
  - reflexivity.
  - discriminate.
Defined.

(** C9: [handleChange] on a name outside the config writes [values[n] = v]
    and [errors[n] = null] and keeps every other entry. *)
Theorem handleChange_unknown_name (config : FormConfig) (st : FormState) (n v : string) :
  config !! n = None ->
  values (handleChange config st n v) = <[n := v]> (values st) /\
  errors (handleChange config st n v) = <[n := None]> (errors st) /\
  (forall m, m <> n ->
     values (handleChange config st n v) !! m = values st !! m /\
     errors (handleChange config st n v) !! m = errors st !! m).
Proof.
  intros Hn. simpl. unfold validateField. rewrite Hn.
  split; [reflexivity|]. split; [reflexivity|].
  intros m Hm. by rewrite !lookup_insert_ne by congruence.
Qed.

Lemma handleChange_unknown_name_witness :
  values (handleChange demo_config (init demo_config) "ghost" "x") =
    <["ghost" := "x"]> (values (init demo_config)) /\
  errors (handleChange demo_config (init demo_config) "ghost" "x") =
    <["ghost" := None]> (errors (init demo_config)) /\
  (forall m, m <> "ghost" ->
     values (handleChange demo_config (init demo_config) "ghost" "x") !! m =
       values (init demo_config) !! m /\
     errors (handleChange demo_config (init demo_config) "ghost" "x") !! m =
       errors (init demo_config) !! m).
Proof. apply (handleChange_unknown_name demo_config (init demo_config) "ghost" "x"). reflexivity. Defined.

End FormValidationFacts.

(* ================================================================== *)
(** * Further properties of the validation engine *)

Module FormValidationMore.
Import FormValidation FormValidationFacts.

(* ------------------------------------------------------------------ *)
(** ** Helper lemmas *)

Lemma email_block_msg (field : FieldConfig) (v e : string) :
  email_block field v = Some e -> str_truthy e = true.
Proof. unfold email_block. repeat case_match; intros Hs; simplify_eq; reflexivity. Qed.

Lemma password_block_msg (field : FieldConfig) (v e : string) :
  password_block field v = Some e -> str_truthy e = true.
Proof. unfold password_block. repeat case_match; intros Hs; simplify_eq; reflexivity. Qed.

Lemma repeat_block_msg (vals : FormValues) (field : FieldConfig) (v e : string) :
  repeat_block vals field v = Some e -> str_truthy e = true.
Proof. unfold repeat_block. repeat case_match; intros Hs; simplify_eq; reflexivity. Qed.

Lemma text_block_msg (field : FieldConfig) (v e : string) :
  text_block field v = Some e -> str_truthy e = true.
Proof. unfold text_block. repeat case_match; intros Hs; simplify_eq; reflexivity. Qed.

Lemma textarea_block_msg (field : FieldConfig) (v e : string) :
  textarea_block field v = Some e -> str_truthy e = true.
Proof. unfold textarea_block. repeat case_match; intros Hs; simplify_eq; reflexivity. Qed.

Lemma number_block_msg (field : FieldConfig) (v e : string) :
  number_block field v = Some e -> str_truthy e = true.
Proof. unfold number_block. repeat case_match; intros Hs; simplify_eq; reflexivity. Qed.

Lemma first_fail_msg (a b : option string) (e : string) :
  (forall e', a = Some e' -> str_truthy e' = true) ->
  (forall e', b = Some e' -> str_truthy e' = true) ->
  first_fail a b = Some e -> str_truthy e = true.
Proof. destruct a; simpl; eauto. Qed.

(** Every message [validateField] returns is a non-empty string, so the
    [if (error)] of [validateAll] sees each of them. *)
Lemma validateField_msg (config : FormConfig) (vals : FormValues) (name v e : string) :
  validateField config vals name v = Some e -> str_truthy e = true.
Proof.
  unfold validateField. destruct (config !! name) as [field|]; [|discriminate].
  destruct (_ && _).
  - intros H. injection H as <-. apply required_msg_truthy.
  - revert e. repeat (intro; apply first_fail_msg;
      [eauto using email_block_msg, password_block_msg, repeat_block_msg,
         text_block_msg, textarea_block_msg |]).
    eauto using number_block_msg.
Qed.

Lemma count_below_false (o : option Z) (x : Z) :
  count_below o x = false <-> (forall n, o = Some n -> n <> 0%Z -> (n <= x)%Z).
Proof.
  unfold count_below, num_truthy. destruct o as [n|]; [|split; [discriminate|reflexivity]].
  destruct (Z.eqb_spec n 0) as [->|Hn].
  - split; [intros _ m [= <-]; congruence | reflexivity].
  - split.
    + intros H m [= <-] _. apply Z.ltb_ge in H. exact H.
    + intros H. apply Z.ltb_ge. by apply H.
Qed.

Lemma too_short_false (o : option Z) (v : string) :
  too_short o v = false <-> (forall n, o = Some n -> n <> 0%Z -> (n <= len v)%Z).
Proof. apply count_below_false. Qed.

Lemma too_long_false (o : option Z) (v : string) :
  too_long o v = false <-> (forall n, o = Some n -> n <> 0%Z -> (len v <= n)%Z).
Proof.
  unfold too_long, num_truthy. destruct o as [n|]; [|split; [discriminate|reflexivity]].
  destruct (Z.eqb_spec n 0) as [->|Hn].
  - split; [intros _ m [= <-]; congruence | reflexivity].
  - split.
    + intros H m [= <-] _. rewrite Z.gtb_ltb in H. apply Z.ltb_ge in H. exact H.
    + intros H. rewrite Z.gtb_ltb. apply Z.ltb_ge. by apply H.
Qed.

(** A non-empty value on a field of type [t]: only the block of [t] runs. *)
Lemma validateField_typed (config : FormConfig) (vals : FormValues)
    (name v : string) (field : FieldConfig) :
  config !! name = Some field -> v <> "" ->
  validateField config vals name v =
    match type field with
    | email => email_block field v
    | password => password_block field v
    | repeatPassword => repeat_block vals field v
    | text => text_block field v
    | textarea => textarea_block field v
    | number => number_block field v
    end.
Proof.
  intros Hf Hv. rewrite (validateField_nonempty _ _ _ _ _ Hf Hv).
  destruct (type field) eqn:Ht; other_blocks vals field v; unfold first_fail;
    repeat match goal with |- context [match ?b with Some _ => _ | None => _ end] =>
      destruct b end; reflexivity.
Qed.

(* ------------------------------------------------------------------ *)
(** ** When a non-empty value is accepted, per field type *)

Ltac open_block Hf Hv Ht :=
  rewrite (validateField_typed _ _ _ _ _ Hf Hv), Ht;
  match goal with v : string |- _ =>
    destruct v as [|?c ?r]; [congruence|] end;
  unfold email_block, password_block, repeat_block, text_block,
    textarea_block, number_block, is_type;
  rewrite Ht; cbn [FieldType_eqb str_truthy andb].

Ltac bools_iff :=
  repeat match goal with |- context [if negb ?b then _ else _] => destruct b; cbn [negb] end;
  repeat match goal with |- context [if ?b then _ else _] =>
    destruct b end;
  (split;
   [ intros Hn; try discriminate; repeat split; reflexivity
   | intros Hc; repeat match type of Hc with _ /\ _ => destruct Hc as [? Hc] end;
     try discriminate; reflexivity ]).

(** A password field accepts a non-empty value exactly when each truthy
    bound among minLength, minSpecialChars, minUppercase and minNumbers is
    met by the value's length, count of non-alphanumerics, of [A-Z] and of
    [0-9]. A bound of [0] is no bound. *)
Theorem password_accepts_iff (config : FormConfig) (vals : FormValues)
    (name v : string) (field : FieldConfig) :
  config !! name = Some field -> type field = password -> v <> "" ->
  validateField config vals name v = None <->
  (forall n, minLength field = Some n -> n <> 0%Z -> (n <= len v)%Z) /\
  (forall n, minSpecialChars field = Some n -> n <> 0%Z -> (n <= special_count v)%Z) /\
  (forall n, minUppercase field = Some n -> n <> 0%Z -> (n <= uppercase_count v)%Z) /\
  (forall n, minNumbers field = Some n -> n <> 0%Z -> (n <= number_count v)%Z).
Proof.
  intros Hf Ht Hv. open_block Hf Hv Ht.
  rewrite <- too_short_false, <- !count_below_false. bools_iff.
Qed.

Lemma password_accepts_iff_witness :
  validateField demo_config ∅ "password" "Abcdef12!" = None <->
  (forall n, minLength demo_password = Some n -> n <> 0%Z -> (n <= len "Abcdef12!")%Z) /\
  (forall n, minSpecialChars demo_password = Some n -> n <> 0%Z ->
     (n <= special_count "Abcdef12!")%Z) /\
  (forall n, minUppercase demo_password = Some n -> n <> 0%Z ->
     (n <= uppercase_count "Abcdef12!")%Z) /\
  (forall n, minNumbers demo_password = Some n -> n <> 0%Z ->
     (n <= number_count "Abcdef12!")%Z).
Proof.
  apply (password_accepts_iff demo_config ∅ "password" "Abcdef12!" demo_password);
    [reflexivity | reflexivity | discriminate].
Defined.

(** An email field accepts a non-empty value exactly when it matches
    [emailRegex] and contains no character outside [a-zA-Z0-9@._-+]. *)
Theorem email_accepts_iff (config : FormConfig) (vals : FormValues)
    (name v : string) (field : FieldConfig) :
  config !! name = Some field -> type field = email -> v <> "" ->
  validateField config vals name v = None <->
  emailRegex_test v = true /\ email_invalid_chars_test v = false.
Proof. intros Hf Ht Hv. open_block Hf Hv Ht. bools_iff. Qed.

Lemma email_accepts_iff_witness :
  validateField demo_config ∅ "email" "a@b.com" = None <->
  emailRegex_test "a@b.com" = true /\ email_invalid_chars_test "a@b.com" = false.
Proof.
  apply (email_accepts_iff demo_config ∅ "email" "a@b.com" (plain_field email));
    [reflexivity | reflexivity | discriminate].
Defined.

(** A text field accepts a non-empty value exactly when it is not made of
    digits only and its length meets the truthy minLength and maxLength. *)
Theorem text_accepts_iff (config : FormConfig) (vals : FormValues)
    (name v : string) (field : FieldConfig) :
  config !! name = Some field -> type field = text -> v <> "" ->
  validateField config vals name v = None <->
  only_digits_test v = false /\
  (forall n, minLength field = Some n -> n <> 0%Z -> (n <= len v)%Z) /\
  (forall n, maxLength field = Some n -> n <> 0%Z -> (len v <= n)%Z).
Proof.
  intros Hf Ht Hv. open_block Hf Hv Ht.
  rewrite <- too_short_false, <- too_long_false. bools_iff.
Qed.

Lemma text_accepts_iff_witness :
  let cfg : FormConfig := {[ "username" := plain_field text ]} in
  validateField cfg ∅ "username" "12345" = None <->
  only_digits_test "12345" = false /\
  (forall n, minLength (plain_field text) = Some n -> n <> 0%Z -> (n <= len "12345")%Z) /\
  (forall n, maxLength (plain_field text) = Some n -> n <> 0%Z -> (len "12345" <= n)%Z).
Proof.
  apply (text_accepts_iff {[ "username" := plain_field text ]} ∅ "username" "12345"
           (plain_field text)); [reflexivity | reflexivity | discriminate].
Defined.

(** A textarea field accepts a non-empty value exactly when its length
    meets the truthy minLength and maxLength; digits-only text is fine. *)
Theorem textarea_accepts_iff (config : FormConfig) (vals : FormValues)
    (name v : string) (field : FieldConfig) :
  config !! name = Some field -> type field = textarea -> v <> "" ->
  validateField config vals name v = None <->
  (forall n, minLength field = Some n -> n <> 0%Z -> (n <= len v)%Z) /\
  (forall n, maxLength field = Some n -> n <> 0%Z -> (len v <= n)%Z).
Proof.
  intros Hf Ht Hv. open_block Hf Hv Ht.
  rewrite <- too_short_false, <- too_long_false. bools_iff.
Qed.

Lemma textarea_accepts_iff_witness :
  validateField demo_config ∅ "bio" "1234567890" = None <->
  (forall n, minLength blank_label_bio = Some n -> n <> 0%Z -> (n <= len "1234567890")%Z) /\
  (forall n, maxLength blank_label_bio = Some n -> n <> 0%Z -> (len "1234567890" <= n)%Z).
Proof.
  apply (textarea_accepts_iff demo_config ∅ "bio" "1234567890" blank_label_bio);
    [reflexivity | reflexivity | discriminate].
Defined.

(** A number field accepts a non-empty value exactly when every character
    is a digit and the digit count meets the truthy minLength and
    maxLength (bounds on the number of digits, not on the numeric value). *)
Theorem number_accepts_iff (config : FormConfig) (vals : FormValues)
    (name v : string) (field : FieldConfig) :
  config !! name = Some field -> type field = number -> v <> "" ->
  validateField config vals name v = None <->
  non_digit_test v = false /\
  (forall n, minLength field = Some n -> n <> 0%Z -> (n <= len v)%Z) /\
  (forall n, maxLength field = Some n -> n <> 0%Z -> (len v <= n)%Z).
Proof.
  intros Hf Ht Hv. open_block Hf Hv Ht.
  rewrite <- too_short_false, <- too_long_false. bools_iff.
Qed.

Lemma number_accepts_iff_witness :
  let age : FieldConfig := {| type := number; label := Some "Age"; required := Some true;
    minLength := Some 1%Z; maxLength := Some 3%Z; minSpecialChars := None;
    minUppercase := None; minNumbers := None; matchField := None |} in
  validateField {[ "age" := age ]} ∅ "age" "1000" = None <->
  non_digit_test "1000" = false /\
  (forall n, minLength age = Some n -> n <> 0%Z -> (n <= len "1000")%Z) /\
  (forall n, maxLength age = Some n -> n <> 0%Z -> (len "1000" <= n)%Z).
Proof.
  intros age. apply (number_accepts_iff {[ "age" := age ]} ∅ "age" "1000" age);
    [reflexivity | reflexivity | discriminate].
Defined.

(** A repeatPassword field accepts a non-empty value exactly when the
    value store holds that same string under the comparison target
    ([matchField], or ["password"] when it is absent or empty); otherwise
    the error is ["Passwords do not match."]. *)
Theorem repeat_accepts_iff (config : FormConfig) (vals : FormValues)
    (name v : string) (field : FieldConfig) :
  config !! name = Some field -> type field = repeatPassword -> v <> "" ->
  (validateField config vals name v = None <-> vals !! match_target field = Some v) /\
  (vals !! match_target field <> Some v ->
     validateField config vals name v = Some "Passwords do not match.").
Proof.
  intros Hf Ht Hv. open_block Hf Hv Ht.
  destruct (decide _) as [Heq|Hne]; split; try split; intros; congruence.
Qed.

Lemma repeat_accepts_iff_witness :
  let cfg : FormConfig := <["password" := plain_field password]>
                          {[ "repeat" := plain_field repeatPassword ]} in
  (validateField cfg {[ "password" := "X1" ]} "repeat" "X2" = None <->
     ({[ "password" := "X1" ]} : FormValues) !! match_target (plain_field repeatPassword)
       = Some "X2") /\
  (({[ "password" := "X1" ]} : FormValues) !! match_target (plain_field repeatPassword)
     <> Some "X2" ->
   validateField cfg {[ "password" := "X1" ]} "repeat" "X2" = Some "Passwords do not match.").
Proof.
  apply (repeat_accepts_iff (<["password" := plain_field password]>
           {[ "repeat" := plain_field repeatPassword ]}) {[ "password" := "X1" ]}
           "repeat" "X2" (plain_field repeatPassword));
    [reflexivity | reflexivity | discriminate].
Defined.

(* ------------------------------------------------------------------ *)
(** ** The email character-set check after the format check *)

Lemma str_append_nil (s : string) : s ++ "" = s.
Proof. induction s as [|c s IH]; [reflexivity | exact (f_equal (String c) IH)]. Qed.

Lemma str_append_assoc (a b d : string) : (a ++ b) ++ d = a ++ (b ++ d).
Proof. induction a as [|c a IH]; [reflexivity | exact (f_equal (String c) IH)]. Qed.

Lemma exists_split_sound (f : string -> string -> bool) (pre s : string) :
  exists_split f pre s = true -> exists u w, s = u ++ w /\ f (pre ++ u) w = true.
Proof.
  revert pre. induction s as [|c r IH]; intros pre H; simpl in H.
  - rewrite orb_false_r in H. exists "", "". split; [reflexivity | by rewrite str_append_nil].
  - apply orb_true_iff in H as [H|H].
    + exists "", (String c r). by rewrite str_append_nil.
    + destruct (IH _ H) as (u & w & -> & Hf).
      exists (String c u), w. rewrite str_append_assoc in Hf. split; [reflexivity | exact Hf].
Qed.

Lemma str_forallb_app (p : ascii -> bool) (a b : string) :
  str_forallb p (a ++ b) = str_forallb p a && str_forallb p b.
Proof.
  induction a as [|c a IH]; [reflexivity|].
  change (p c && str_forallb p (a ++ b) = (p c && str_forallb p a) && str_forallb p b).
  by rewrite IH, andb_assoc.
Qed.

Lemma str_forallb_impl (p q : ascii -> bool) (s : string) :
  (forall c, p c = true -> q c = true) -> str_forallb p s = true -> str_forallb q s = true.
Proof.
  intros Hpq. induction s as [|c s IH]; simpl; [reflexivity|].
  rewrite !andb_true_iff. intros [Hc Hs]. split; auto.
Qed.

(** The characters [emailRegex] admits: the allowed set plus ['%']. *)
Definition allowed_or_percent (c : ascii) : bool :=
  email_allowed_char c || is_char "%" c.

Lemma emailRegex_chars (s : string) :
  emailRegex_test s = true -> str_forallb allowed_or_percent s = true.
Proof.
  unfold emailRegex_test. intros H.
  apply exists_split_sound in H as (u & w & -> & H). simpl in H.
  destruct w as [|c r']; [discriminate|].
  apply andb_true_iff in H as [H Hdom]. apply andb_true_iff in H as [Hloc Hat].
  unfold email_domain_re in Hdom.
  apply exists_split_sound in Hdom as (d & t & -> & Hd). simpl in Hd.
  destruct t as [|c2 t']; [discriminate|].
  apply andb_true_iff in Hd as [Hd Htld]. apply andb_true_iff in Hd as [Hdd Hdot].
  unfold plus_of, at_least_two_of in *.
  apply andb_true_iff in Hloc as [_ Hloc]. apply andb_true_iff in Hdd as [_ Hdd].
  apply andb_true_iff in Htld as [_ Htld].
  rewrite str_forallb_app. simpl. rewrite str_forallb_app. simpl.
  apply andb_true_iff; split.
  { apply (str_forallb_impl email_local_char); [|exact Hloc].
    unfold email_local_char, allowed_or_percent, email_allowed_char.
    intros x. rewrite !orb_true_iff. tauto. }
  apply andb_true_iff; split.
  { unfold allowed_or_percent, email_allowed_char. rewrite Hat. by rewrite !orb_true_r. }
  apply andb_true_iff; split.
  { apply (str_forallb_impl email_domain_char); [|exact Hdd].
    unfold email_domain_char, allowed_or_percent, email_allowed_char.
    intros x. rewrite !orb_true_iff. tauto. }
  apply andb_true_iff; split.
  { unfold allowed_or_percent, email_allowed_char. rewrite Hdot. by rewrite !orb_true_r. }
  apply (str_forallb_impl is_alpha); [|exact Htld].
  unfold allowed_or_percent, email_allowed_char, is_alnum.
  intros x. rewrite !orb_true_iff. tauto.
Qed.

Lemma invalid_chars_percent (s : string) :
  str_forallb allowed_or_percent s = true ->
  email_invalid_chars_test s = true -> str_existsb (is_char "%") s = true.
Proof.
  unfold email_invalid_chars_test. induction s as [|c s IH]; simpl; [discriminate|].
  rewrite andb_true_iff, !orb_true_iff. intros [Hc Hs] [Hn|Hn]; [|right; auto].
  left. unfold allowed_or_percent in Hc.
  destruct (email_allowed_char c); [discriminate | exact Hc].
Qed.

Lemma percent_invalid_chars (s : string) :
  str_existsb (is_char "%") s = true -> email_invalid_chars_test s = true.
Proof.
  unfold email_invalid_chars_test. induction s as [|c s IH]; simpl; [discriminate|].
  rewrite !orb_true_iff. intros [Hc|Hs]; [left|right; auto].
  unfold is_char in Hc. apply Ascii.eqb_eq in Hc as ->. reflexivity.
Qed.

(** On an email field, the character-set error is returned exactly for
    the values that match [emailRegex] and contain a ['%']: ['%'] is the
    only character the format regex admits and the character-set check
    rejects. *)
Theorem email_charset_error_iff_percent (config : FormConfig) (vals : FormValues)
    (name v : string) (field : FieldConfig) :
  config !! name = Some field -> type field = email -> v <> "" ->
  validateField config vals name v = Some "Email contains invalid characters." <->
  emailRegex_test v = true /\ str_existsb (is_char "%") v = true.
Proof.
  intros Hf Ht Hv.
  assert (Hchars := emailRegex_chars v).
  assert (Hp := invalid_chars_percent v). assert (Hq := percent_invalid_chars v).
  open_block Hf Hv Ht.
  destruct (emailRegex_test _); cbn [negb];
    [|split; [discriminate | intros [? _]; discriminate]].
  destruct (email_invalid_chars_test _).
  - split; [intros _; split; [reflexivity | auto] | reflexivity].
  - split; [discriminate | intros [_ H]; specialize (Hq H); discriminate].
Qed.

Lemma email_charset_error_iff_percent_witness :
  validateField demo_config ∅ "email" "a%b@c.com" = Some "Email contains invalid characters." <->
  emailRegex_test "a%b@c.com" = true /\ str_existsb (is_char "%") "a%b@c.com" = true.
Proof.
  apply (email_charset_error_iff_percent demo_config ∅ "email" "a%b@c.com"
           (plain_field email)); [reflexivity | reflexivity | discriminate].
Defined.

(* ------------------------------------------------------------------ *)
(** ** What [validateField] reads from the value store *)

(** [validateField] reads the value store only at the comparison target of
    a repeatPassword field: two stores that agree there give the same
    result, and for every other field type any two stores do. *)
Theorem validateField_store_agree (config : FormConfig) (vals1 vals2 : FormValues)
    (name v : string) :
  (forall field, config !! name = Some field -> type field = repeatPassword ->
     vals1 !! match_target field = vals2 !! match_target field) ->
  validateField config vals1 name v = validateField config vals2 name v.
Proof.
  intros Hagree. unfold validateField.
  destruct (config !! name) as [field|] eqn:Hf; [|reflexivity].
  destruct (_ && _); [reflexivity|].
  unfold repeat_block, is_type.
  destruct (type field) eqn:Ht; cbn [FieldType_eqb andb]; try reflexivity.
  by rewrite (Hagree field eq_refl Ht).
Qed.

Lemma validateField_store_agree_witness :
  validateField demo_config {[ "password" := "X1" ]} "password" "Abcdef12!" =
  validateField demo_config ∅ "password" "Abcdef12!".
Proof.
  apply validateField_store_agree. intros field Hf Ht.
  vm_compute in Hf. injection Hf as <-. vm_compute in Ht. discriminate Ht.
Defined.

(** The error [handleChange] records for a configured field equals the
    result of validating the new value against the store after the
    update, unless the field is a repeatPassword whose comparison target
    is the field itself (it then compares against its own old value). *)
Theorem handleChange_error_current (config : FormConfig) (st : FormState)
    (n v : string) (field : FieldConfig) :
  config !! n = Some field ->
  (type field = repeatPassword -> match_target field <> n) ->
  errors (handleChange config st n v) !! n =
    Some (validateField config (values (handleChange config st n v)) n v).
Proof.
  intros Hf Hself. simpl. rewrite lookup_insert_eq. f_equal.
  apply validateField_store_agree. intros f' Hf' Ht.
  rewrite Hf in Hf'. injection Hf' as <-.
  by rewrite lookup_insert_ne by (intros Heq; apply (Hself Ht); congruence).
Qed.

Lemma handleChange_error_current_witness :
  errors (handleChange demo_config (init demo_config) "password" "abc") !! "password" =
    Some (validateField demo_config
            (values (handleChange demo_config (init demo_config) "password" "abc"))
            "password" "abc").
Proof.
  apply (handleChange_error_current demo_config (init demo_config) "password" "abc"
           demo_password); [reflexivity | intros Ht; discriminate Ht].
Defined.

(** A repeatPassword field whose target is itself keeps comparing against
    the previous value: typing the same string twice is needed before it
    is accepted. *)
Example self_target_stale :
  let me : FieldConfig := {| type := repeatPassword; label := None; required := None;
    minLength := None; maxLength := None; minSpecialChars := None;
    minUppercase := None; minNumbers := None; matchField := Some "again" |} in
  let cfg : FormConfig := {[ "again" := me ]} in
  errors (run cfg (init cfg) [Update "again" "abc"]) !! "again"
    = Some (Some "Passwords do not match.") /\
  validateField cfg (values (run cfg (init cfg) [Update "again" "abc"])) "again" "abc" = None.
Proof. vm_compute. split; reflexivity. Qed.

(* ------------------------------------------------------------------ *)
(** ** validateAll *)

(** [validateAll] keeps the value store, and its error store has an entry
    for exactly the config keys, each the result of [validateField] on the
    key's current value (a missing value read as [""]). *)
Theorem validateAll_errors_exact (config : FormConfig) (st : FormState) :
  values (validateAll config st).1 = values st /\
  (forall k, errors (validateAll config st).1 !! k =
     (fun _ => validateField config (values st) k (default "" (values st !! k)))
       <$> config !! k).
Proof.
  rewrite validateAll_result. split; [reflexivity|]. intros k. simpl.
  rewrite validateAll_loop_errors. case_decide as Hk.
  - apply config_keys_elem in Hk as [f Hf]. by rewrite Hf.
  - rewrite lookup_empty. destruct (config !! k) eqn:Hf; [|reflexivity].
    exfalso. apply Hk, config_keys_elem. by eexists.
Qed.

(** [validateAll()] returns [true] exactly when [validateField] reports no
    error for any config key on its current value. *)
Theorem validateAll_true_iff (config : FormConfig) (st : FormState) :
  (validateAll config st).2 = true <->
  (forall k f, config !! k = Some f ->
     validateField config (values st) k (default "" (values st !! k)) = None).
Proof.
  rewrite validateAll_result. cbn [snd]. rewrite validateAll_loop_valid, andb_true_l.
  rewrite forallb_forall. split.
  - intros H k f Hf.
    assert (Hin : In k (config_keys config)).
    { apply list_elem_of_In, config_keys_elem. by exists f. }
    specialize (H k Hin).
    destruct (validateField _ _ _ _) as [e|] eqn:He; [|reflexivity].
    apply validateField_msg in He. simpl in H. by rewrite He in H.
  - intros H k Hin. apply list_elem_of_In, config_keys_elem in Hin as [f Hf].
    by rewrite (H k f Hf).
Qed.

(** [validateAll] is idempotent: a second call with no update in between
    returns the same state and the same result. *)
Theorem validateAll_idempotent (config : FormConfig) (st : FormState) :
  validateAll config (validateAll config st).1 = validateAll config st.
Proof. rewrite !validateAll_result. reflexivity. Qed.

End FormValidationMore.

(* ================================================================== *)
(** * Properties of useCopy *)

Module UseCopyFacts.
Import UseCopy.

Lemma filter_none {A} (f : A -> bool) (l : list A) :
  (forall x, In x l -> f x = false) -> List.filter f l = [].
Proof.
  induction l as [|x l IH]; intros H; [reflexivity|]. simpl.
  rewrite (H x (or_introl eq_refl)). apply IH. intros y Hy. apply H. by right.
Qed.

Lemma filter_all {A} (f : A -> bool) (l : list A) :
  (forall x, In x l -> f x = true) -> List.filter f l = l.
Proof.
  induction l as [|x l IH]; intros H; [reflexivity|]. simpl.
  rewrite (H x (or_introl eq_refl)), IH; [reflexivity|]. intros y Hy. apply H. by right.
Qed.

Lemma ticks_copied_false (n : nat) (st : CopyState) :
  copied st = false -> copied (ticks n st) = false.
Proof.
  revert st. induction n as [|n IH]; intros st H; [exact H|].
  simpl. apply IH. simpl. rewrite H. by destruct (List.filter _ _).
Qed.

(** No deadline reached within [n] ticks: only the clock moves. *)
Lemma ticks_quiet (n : nat) (st : CopyState) :
  (forall d, In d (timers st) -> now st + n < d) ->
  ticks n st = {| copied := copied st; now := now st + n; timers := timers st |}.
Proof.
  revert st. induction n as [|n IH]; intros st H; cbn [ticks]; [|unfold tick; cbn zeta].
  - rewrite Nat.add_0_r. by destruct st.
  - assert (Hlate : forall d, In d (timers st) -> S (now st) < d) by
      (intros d Hd; specialize (H d Hd); lia).
    rewrite (filter_none _ (timers st)) by
      (intros d Hd; apply Nat.leb_gt; by apply Hlate).
    rewrite (filter_all _ (timers st)) by
      (intros d Hd; apply negb_true_iff, Nat.leb_gt; by apply Hlate).
    rewrite IH; simpl.
    + f_equal. lia.
    + intros d Hd. specialize (H d Hd). lia.
Qed.

(** A pending deadline reached within [n >= 1] ticks clears the flag. *)
Lemma ticks_deadline (n : nat) (st : CopyState) (d : nat) :
  In d (timers st) -> d <= now st + n -> 1 <= n -> copied (ticks n st) = false.
Proof.
  revert st. induction n as [|n IH]; intros st Hd Hle Hn; [lia|]. cbn [ticks].
  destruct (Nat.leb d (S (now st))) eqn:Hdue.
  - apply ticks_copied_false. unfold tick. cbn [copied].
    assert (Hin : In d (List.filter (fun d => Nat.leb d (S (now st))) (timers st)))
      by (apply filter_In; split; assumption).
    destruct (List.filter _ _); [destruct Hin | reflexivity].
  - apply Nat.leb_gt in Hdue.
    apply (IH (tick st)); simpl.
    + apply filter_In. split; [exact Hd|]. apply negb_true_iff, Nat.leb_gt. lia.
    + lia.
    + lia.
Qed.

(** Reachable states keep every pending deadline within [resetTimeout] of
    the clock, and a raised flag always has a pending timer. *)
Lemma timeout_delay_le (R : nat) : timeout_delay R <= R.
Proof.
  unfold timeout_delay. destruct (_ <? _)%Z; [|lia].
  pose proof (Z.mod_le (Z.of_nat R) (2 ^ 32) ltac:(lia) ltac:(lia)).
  pose proof (Z.mod_pos_bound (Z.of_nat R) (2 ^ 32) ltac:(lia)). lia.
Qed.

Lemma timeout_delay_small (R : nat) :
  (Z.of_nat R < 2 ^ 31)%Z -> timeout_delay R = R.
Proof.
  intros HR. unfold timeout_delay.
  rewrite Z.mod_small by lia.
  destruct (Z.ltb_spec (Z.of_nat R) (2 ^ 31)); lia.
Qed.

Lemma copy_step_inv (R : nat) (st : CopyState) (ev : CopyEvent) :
  (forall d, In d (timers st) -> now st <= d <= now st + R) /\
  (copied st = true -> timers st <> []) ->
  (forall d, In d (timers (copy_step R st ev)) ->
     now (copy_step R st ev) <= d <= now (copy_step R st ev) + R) /\
  (copied (copy_step R st ev) = true -> timers (copy_step R st ev) <> []).
Proof.
  intros [Hb Hc]. pose proof (timeout_delay_le R). destruct ev as [[|]|]; simpl.
  - split; [|discriminate]. intros d [<-|Hd]; [lia | by apply Hb].
  - split; [exact Hb | discriminate].
  - split.
    + intros d Hd. apply filter_In in Hd as [Hd Hlate].
      apply negb_true_iff, Nat.leb_gt in Hlate. specialize (Hb d Hd). lia.
    + destruct (List.filter (fun d => Nat.leb d (S (now st))) (timers st)) eqn:Hf;
        [|discriminate].
      intros Hcop. rewrite filter_all; [exact (Hc Hcop)|].
      intros x Hx. apply negb_true_iff. destruct (Nat.leb x (S (now st))) eqn:Hxle; [|reflexivity].
      assert (Hin : In x (List.filter (fun d => Nat.leb d (S (now st))) (timers st)))
        by (apply filter_In; split; assumption).
      rewrite Hf in Hin. destruct Hin.
Qed.

Lemma copy_run_inv (R : nat) (evs : list CopyEvent) (st : CopyState) :
  (forall d, In d (timers st) -> now st <= d <= now st + R) /\
  (copied st = true -> timers st <> []) ->
  (forall d, In d (timers (copy_run R st evs)) ->
     now (copy_run R st evs) <= d <= now (copy_run R st evs) + R) /\
  (copied (copy_run R st evs) = true -> timers (copy_run R st evs) <> []).
Proof.
  revert st. induction evs as [|ev evs IH]; intros st Hinv; [exact Hinv|].
  apply (IH (copy_step R st ev)). by apply copy_step_inv.
Qed.

(** Whatever happened before (copies that succeeded or failed, time
    passing), [copied] is [false] once [max resetTimeout 1] milliseconds
    pass with no further copy: the flag never stays raised. *)
Theorem copied_always_resets (R : nat) (evs : list CopyEvent) :
  copied (ticks (Nat.max R 1) (copy_run R copy_init evs)) = false.
Proof.
  destruct (copy_run_inv R evs copy_init) as [Hb Hc].
  { split; [intros d [] | discriminate]. }
  set (st := copy_run R copy_init evs) in *.
  destruct (copied st) eqn:Hcop; [|by apply ticks_copied_false].
  destruct (timers st) as [|d ds] eqn:Ht; [by destruct (Hc eq_refl)|].
  apply (ticks_deadline _ _ d).
  - rewrite Ht. by left.
  - specialize (Hb d (or_introl eq_refl)). lia.
  - lia.
Qed.

(** With no earlier timer pending, a successful copy raises [copied] for
    exactly [resetTimeout] milliseconds, for any [resetTimeout] from [1]
    to [2^31 - 1] (the range [setTimeout] honours): it is [true] for every
    [k < resetTimeout] ticks and [false] after [resetTimeout] ticks. *)
Theorem copied_window (R : nat) (st : CopyState) :
  timers st = [] -> 1 <= R -> (Z.of_nat R < 2 ^ 31)%Z ->
  (forall k, k < R -> copied (ticks k (copy_settled R st true)) = true) /\
  copied (ticks R (copy_settled R st true)) = false.
Proof.
  intros Ht HR HR'. unfold copy_settled. rewrite (timeout_delay_small R HR'). split.
  - intros k Hk. rewrite ticks_quiet; [reflexivity|].
    simpl. rewrite Ht. intros d [<-|[]]. lia.
  - apply (ticks_deadline _ _ (now st + R)); simpl; [by left | lia | exact HR].
Qed.

Lemma copied_window_witness :
  (forall k, k < 3 -> copied (ticks k (copy_settled 3 copy_init true)) = true) /\
  copied (ticks 3 (copy_settled 3 copy_init true)) = false.
Proof. apply (copied_window 3 copy_init); [reflexivity | lia | lia]. Defined.

(** Timers are never cleared: for [resetTimeout] below [2^31], after a
    successful copy, a second successful copy [k] milliseconds later
    ([0 < k < resetTimeout]) is shown for only [resetTimeout - k]
    milliseconds, because the first copy's timer clears the flag on its
    own schedule. *)
Theorem copied_cut_short_by_earlier_timer (R k : nat) (st : CopyState) :
  timers st = [] -> 0 < k < R -> (Z.of_nat R < 2 ^ 31)%Z ->
  copied (ticks (R - k) (copy_settled R (ticks k (copy_settled R st true)) true)) = false.
Proof.
  intros Ht Hk HR'. unfold copy_settled. rewrite (timeout_delay_small R HR').
  rewrite (ticks_quiet k).
  2:{ simpl. rewrite Ht. intros d [<-|[]]. lia. }
  apply (ticks_deadline _ _ (now st + R)); simpl; [right; by left | lia | lia].
Qed.

Lemma copied_cut_short_by_earlier_timer_witness :
  copied (ticks (3 - 1) (copy_settled 3 (ticks 1 (copy_settled 3 copy_init true)) true))
    = false.
Proof. apply (copied_cut_short_by_earlier_timer 3 1 copy_init); [reflexivity | lia | lia]. Defined.

End UseCopyFacts.
